(** * Session isolation and tiered ingestion of the data-summary service

    A shallow embedding of
    - [app/utils/session_security.py]   (class [SessionSecurity]),
    - [app/utils/data_validation.py]    ([validate_dataframe]),
    - [app/handlers/file_parser.py]     ([parse_file_contents],
                                          [_parse_csv_with_encoding]),
    - [app/handlers/large_file_processor.py] ([parse_large_file] and helpers),
    followed by the properties of the specification that concern them.
    What these functions use of Python itself (keyword binding, the true
    division behind [timedelta.total_seconds()]) is written out as well.

    Python objects are modelled by the type [value]; a [dict] with string
    keys is a [gmap string _]; a function that mutates [self] or calls an
    external library is a computation in the state-and-exception monad
    [M S], whose state survives a raised exception exactly as a Python
    object keeps the writes made before the [raise]. *)

From Stdlib Require Import ZArith List Floats Uint63.
From Stdlib.Strings Require Import String Ascii Byte.
From stdpp Require Import gmap strings pretty list fin_maps.

Set Warnings "-inexact-float".
Local Open Scope Z_scope.
Local Open Scope string_scope.
Local Open Scope list_scope.

(** ** Python values and exceptions *)

(** A pandas [DataFrame] as far as the service looks at it: the column
    labels (as [str(c)] renders them) and the rows in file order. *)
Record DataFrame := mkDataFrame {
  columns : list string;
  rows : list (list string)
}.

Inductive value :=
| VNone
| VBool (b : bool)
| VInt (z : Z)
| VFloat (f : float)
| VStr (s : string)
| VDatetime (t : Z)          (* aware UTC datetime, microseconds since the epoch *)
| VDataFrame (df : DataFrame)
| VObject (repr : string).   (* any other object, e.g. a nested summary *)

Inductive exn :=
| KeyError (key : string)
| TypeError (msg : string)
| ValueError (msg : string)
| ZeroDivisionError
| LibraryError (msg : string)   (* raised inside pandas, chardet or a codec *)
| HTTPException (status_code : Z) (detail : string)
| FileReadError (filename file_type original_error : string)
| DataFrameValidationError (detail : string)
    (row_count col_count min_rows max_rows min_cols max_cols : Z).

Inductive outcome (A : Type) :=
| Return (a : A)
| Raise (e : exn).
Arguments Return {A} a.
Arguments Raise {A} e.

(** ** The state-and-exception monad *)

Definition M (S A : Type) : Type := S → outcome A * S.

Definition ret {S A} (a : A) : M S A := λ s, (Return a, s).

Definition bind {S A B} (m : M S A) (f : A → M S B) : M S B := λ s,
  match m s with
  | (Return a, s') => f a s'
  | (Raise e, s') => (Raise e, s')
  end.

Notation "'let*' x ':=' m 'in' k" := (bind m (λ x, k))
  (at level 10, x name, m at level 100, k at level 200,
   format "'[v' 'let*'  x  ':='  m  'in' '/' k ']'").

Definition raise {S A} (e : exn) : M S A := λ s, (Raise e, s).

(** [try: body except Exception as e: handler e] *)
Definition try_except {S A} (body : M S A) (handler : exn → M S A) : M S A :=
  λ s, match body s with
       | (Return a, s') => (Return a, s')
       | (Raise e, s') => handler e s'
       end.

(** ** Python arithmetic: [int / int] and [float > int]

    A finite binary64 is kept as a pair [(m, e)] that stands for the number
    m * 2^e, with |m| at most 2^53.  The integers met below are spans of
    datetimes in microseconds: their quotients by 10**6 lie far inside the
    range where a double is normal, so the exponent is never clipped. *)

(** The integer nearest to [a / b] for [0 < b], ties to the even one. *)
Definition div_nearest_even (a b : Z) : Z :=
  let q := (a / b)%Z in
  let r := (a mod b)%Z in
  if (2 * r <? b)%Z then q
  else if (b <? 2 * r)%Z then (q + 1)%Z
  else if Z.even q then q else (q + 1)%Z.

(** [floor (log2 (a / b))] for positive [a] and [b]: the difference of the
    bit lengths, or one less. *)
Definition quotient_exponent (a b : Z) : Z :=
  let k := (Z.log2 a - Z.log2 b)%Z in
  if (a * 2 ^ Z.max 0 (- k) <? b * 2 ^ Z.max 0 k)%Z then (k - 1)%Z else k.

(** [a / b] on ints, [0 < b]: the double nearest to the exact quotient,
    ties to even; the magnitude is rounded to 53 bits and the sign put
    back, as [long_true_divide] does. *)
Definition true_divide (a b : Z) : Z * Z :=
  if (a =? 0)%Z then (0%Z, 0%Z)
  else
    let e := (quotient_exponent (Z.abs a) b - 52)%Z in
    ((Z.sgn a * div_nearest_even (Z.abs a * 2 ^ Z.max 0 (- e)) (b * 2 ^ Z.max 0 e))%Z, e).

(** [x > n] for a float [x] and an int [n]: Python compares the two numbers
    exactly, without converting the int. *)
Definition float_gt_int (x : Z * Z) (n : Z) : bool :=
  (n * 2 ^ Z.max 0 (- x.2) <? x.1 * 2 ^ Z.max 0 x.2)%Z.

(** The hardware double a pair stands for, for pairs within its range. *)
Definition to_float (x : Z * Z) : float :=
  let m := PrimFloat.of_uint63 (Uint63.of_Z (Z.abs x.1)) in
  Z.ldexp (if (x.1 <? 0)%Z then PrimFloat.opp m else m) x.2.

(** Spans on which [true_divide] is compared with the division of the
    hardware: exact and inexact quotients, small and large, all below 2^53
    so that the conversion of the int to a double is exact. *)
Definition sample_spans : list Z :=
  [1; 2; 3; 7; 333333; 500000; 999999; 1000000; 1000001; 1500000;
   3600000001; 123456789012345; 2251799813685248; 9007199254740991]%Z.

Definition agrees_with_hardware (microseconds : Z) : bool :=
  PrimFloat.Leibniz.eqb
    (to_float (true_divide microseconds 1000000))
    (PrimFloat.div (PrimFloat.of_uint63 (Uint63.of_Z microseconds)) 1000000%float).

(** ** app/utils/session_security.py *)

Module SessionSecurity.

(** [self.sessions] maps a session id to the session dict; [self.client_sessions]
    maps a client address to the list of its session ids.  The logger is
    write-only and is left out. *)
Record t := mk {
  sessions : gmap string (gmap string value);
  client_sessions : gmap string (list string)
}.

Definition init : t := {| sessions := ∅; client_sessions := ∅ |}.

(** [create_session]: [session_id] stands for the result of
    [secrets.token_urlsafe(32)], [created] and [accessed] for the two readings
    of [datetime.now(timezone.utc)]. *)
Definition create_session (client_ip filename filetype : string)
    (session_id : string) (created accessed : Z) : M t string := λ self,
  let session_data : gmap string value :=
    <["session_id" := VStr session_id]>
    (<["client_ip" := VStr client_ip]>
    (<["filename" := VStr filename]>
    (<["filetype" := VStr filetype]>
    (<["created_time" := VDatetime created]>
    (<["last_access_time" := VDatetime accessed]>
    (<["df" := VNone]>
    (<["row_count" := VInt 0]>
    (<["column_count" := VInt 0]> ∅)))))))) in
  let ids := default [] (client_sessions self !! client_ip) in
  (Return session_id,
   {| sessions := <[session_id := session_data]> (sessions self);
      client_sessions := <[client_ip := ids ++ [session_id]]> (client_sessions self) |}).

(** [get_session] returns the session dict itself; the model returns its
    contents after the refresh, and the callers below that write through the
    returned reference write back to [sessions] under the same id. *)
Definition get_session (session_id client_ip : string) (now : Z)
    : M t (option (gmap string value)) := λ self,
  match sessions self !! session_id with
  | None => (Return None, self)
  | Some session =>
      match session !! "client_ip" with
      | None => (Raise (KeyError "client_ip"), self)
      | Some (VDataFrame _) =>
          (Raise (ValueError "The truth value of a DataFrame is ambiguous"), self)
      | Some (VStr owner) =>
          if decide (owner = client_ip) then
            let session' := <["last_access_time" := VDatetime now]> session in
            (Return (Some session'),
             {| sessions := <[session_id := session']> (sessions self);
                client_sessions := client_sessions self |})
          else (Return None, self)
      | Some _ => (Return None, self)
      end
  end.

(** Python binds the keyword arguments of a call to the named parameters
    first: a key of [**updates] equal to a parameter name makes the call
    itself raise [TypeError] (multiple values for the argument), before the
    body runs. *)
Definition parameter_names : list string := ["self"; "session_id"; "client_ip"].

Definition binds_parameter (updates : list (string * value)) : bool :=
  existsb (λ kv, bool_decide (kv.1 ∈ parameter_names)) updates.

(** [for key, value in updates.items(): session[key] = value] *)
Definition merge_updates (updates : list (string * value))
    (session : gmap string value) : gmap string value :=
  foldl (λ s kv, <[kv.1 := kv.2]> s) session updates.

Definition update_session (session_id client_ip : string)
    (updates : list (string * value)) (now : Z) : M t bool :=
  if binds_parameter updates then
    raise (TypeError "got multiple values for argument")
  else
    let* session := get_session session_id client_ip now in
    match session with
    | None => ret false
    | Some session =>
        if decide (size session = 0%nat) then ret false
        else λ self,
          (Return true,
           {| sessions := <[session_id := merge_updates updates session]> (sessions self);
              client_sessions := client_sessions self |})
    end.

(** [l.remove(x)]: drops the first occurrence; [None] stands for [ValueError]. *)
Fixpoint list_remove (x : string) (l : list string) : option (list string) :=
  match l with
  | [] => None
  | y :: l' => if decide (y = x) then Some l'
               else (y ::.) <$> list_remove x l'
  end.

(** [if client_ip in self.client_sessions: try: ....remove(session_id)
    except ValueError: pass] *)
Definition discard_from_index (client_ip session_id : string)
    (index : gmap string (list string)) : gmap string (list string) :=
  match index !! client_ip with
  | None => index
  | Some ids =>
      match list_remove session_id ids with
      | Some ids' => <[client_ip := ids']> index
      | None => index
      end
  end.

Definition delete_session (session_id client_ip : string) (now : Z) : M t bool :=
  let* session := get_session session_id client_ip now in
  match session with
  | None => ret false
  | Some session =>
      if decide (size session = 0%nat) then ret false
      else λ self,
        (Return true,
         {| sessions := delete session_id (sessions self);
            client_sessions := discard_from_index client_ip session_id (client_sessions self) |})
  end.

Definition get_client_sessions (client_ip : string) : M t (list (gmap string value)) := λ self,
  match client_sessions self !! client_ip with
  | None => (Return [], self)
  | Some ids => (Return (omap (λ session_id, sessions self !! session_id) ids), self)
  end.

Definition get_total_sessions : M t nat := λ self, (Return (size (sessions self)), self).

(** [timedelta.total_seconds()]: the microseconds of the span divided by
    [10**6], a float. *)
Definition total_seconds (microseconds : Z) : Z * Z := true_divide microseconds 1000000.

(** [(now - last).total_seconds() > expiry_seconds] on microsecond clocks. *)
Definition older_than (now last expiry_seconds : Z) : bool :=
  float_gt_int (total_seconds (now - last)) expiry_seconds.

(** First loop of [cleanup_expired_sessions]. *)
Fixpoint collect_expired (now expiry_seconds : Z)
    (items : list (string * gmap string value)) (expired : list string)
    : outcome (list string) :=
  match items with
  | [] => Return expired
  | (session_id, session) :: items' =>
      match session !! "last_access_time" with
      | None => Raise (KeyError "last_access_time")
      | Some (VDatetime last) =>
          collect_expired now expiry_seconds items'
            (if older_than now last expiry_seconds
             then expired ++ [session_id] else expired)
      | Some _ => Raise (TypeError "unsupported operand type(s) for -")
      end
  end.

(** Second loop of [cleanup_expired_sessions].  The logger itself is left
    out, but not its arguments: they are evaluated after the session has
    been dropped, and ['age_seconds'] reads [session['created_time']] and
    subtracts it from [now], which raises when the key is missing or holds
    no datetime.  The loop then stops with this session removed and the
    later ones still in place. *)
Fixpoint remove_expired (now : Z) (expired : list string) : M t () :=
  match expired with
  | [] => ret ()
  | session_id :: expired' => λ self,
      match sessions self !! session_id with
      | None => (Raise (KeyError session_id), self)
      | Some session =>
          match session !! "client_ip" with
          | None => (Raise (KeyError "client_ip"), self)
          | Some owner =>
              let index :=
                match owner with
                | VStr client_ip =>
                    discard_from_index client_ip session_id (client_sessions self)
                | _ => client_sessions self
                end in
              let self' := {| sessions := delete session_id (sessions self);
                              client_sessions := index |} in
              match session !! "created_time" with
              | None => (Raise (KeyError "created_time"), self')
              | Some (VDatetime created) =>
                  (* int((now - created).total_seconds()) is a finite number *)
                  remove_expired now expired' self'
              | Some _ => (Raise (TypeError "unsupported operand type(s) for -"), self')
              end
          end
      end
  end.

(** [list(self.sessions.items())] is taken in the order of [map_to_list],
    Python takes it in the order of insertion.  When the sweep completes,
    the second loop has deleted all the collected ids and the order is
    immaterial to the store it leaves; when the second loop raises, which
    of the collected sessions are gone depends on the order. *)
Definition cleanup_expired_sessions (expiry_seconds : Z) (now : Z) : M t () := λ self,
  match collect_expired now expiry_seconds (map_to_list (sessions self)) [] with
  | Raise e => (Raise e, self)
  | Return expired => remove_expired now expired self
  end.

Definition validate_session_access (session_id client_ip : string) (now : Z) : M t bool :=
  let* session := get_session session_id client_ip now in
  ret (bool_decide (is_Some session)).

End SessionSecurity.

(** ** External libraries *)

(** What [chardet.detect] returns: its result always carries the three keys,
    so the [.get] defaults of the callers are never taken. *)
Record detection := mkDetection {
  det_encoding : option string;   (* [None] is Python's [None] *)
  det_confidence : float;
  det_language : option string
}.

(** A [TextFileReader]: the chunks it yields in order and, when the parse
    breaks off, the exception raised by the [next] after the last chunk. *)
Record chunk_reader := mkReader {
  yielded : list DataFrame;
  failure : option exn
}.

(** pandas, chardet, the codecs and [str] on exceptions are not part of the
    repository; the development is parametric in them. *)
Class Externals := {
  (** [pd.read_csv(io.BytesIO(contents), encoding=, nrows=, errors=)] *)
  pd_read_csv : list byte → option string → option Z → option string → outcome DataFrame;
  (** [pd.read_csv(io.BytesIO(contents), encoding=, chunksize=)] *)
  pd_read_csv_chunks : list byte → option string → Z → outcome chunk_reader;
  (** [pd.read_excel(io.BytesIO(contents))] *)
  pd_read_excel : list byte → outcome DataFrame;
  (** [chardet.detect(contents)] *)
  chardet_detect : list byte → outcome detection;
  (** [bytes.decode(encoding, errors='ignore')], as code points *)
  bytes_decode_ignore : list byte → string → outcome (list N);
  (** [str(e)] *)
  exc_str : exn → string
}.

(** Every call that leaves the repository is recorded, in order. *)
Inductive call :=
| ReadCsv (contents : list byte) (encoding : option string)
    (nrows : option Z) (errors : option string)
| ReadCsvChunks (contents : list byte) (encoding : option string) (chunksize : Z)
| ReadExcel (contents : list byte)
| Detect (contents : list byte)
| DecodeIgnore (bytes : list byte) (encoding : string).

Definition IO (A : Type) : Type := M (list call) A.

Definition external {A} (c : call) (r : outcome A) : IO A := λ log, (r, log ++ [c]).

(** [pd.concat(chunks, ignore_index=True)] on chunks of one reader, which
    share their columns. *)
Definition pd_concat (chunks : list DataFrame) : DataFrame :=
  {| columns := match chunks with [] => [] | df :: _ => columns df end;
     rows := concat (rows <$> chunks) |}.

(** [len(df)] *)
Definition df_len (df : DataFrame) : Z := Z.of_nat (length (rows df)).

(** [df.empty] *)
Definition df_empty (df : DataFrame) : bool :=
  (length (columns df) =? 0)%nat || (length (rows df) =? 0)%nat.

(** [df.shape] *)
Definition df_shape (df : DataFrame) : Z * Z :=
  (Z.of_nat (length (rows df)), Z.of_nat (length (columns df))).

(** ** Strings, truth values and floats of Python *)

Definition ascii_lower (c : ascii) : ascii :=
  let n := nat_of_ascii c in
  if ((65 <=? n) && (n <=? 90))%nat then ascii_of_nat (n + 32) else c.

(** [s.lower()], on the ASCII letters *)
Fixpoint lower (s : string) : string :=
  match s with
  | EmptyString => EmptyString
  | String c s' => String (ascii_lower c) (lower s')
  end.

(** [s.startswith(p)] *)
Definition startswith (p s : string) : bool := String.prefix p s.

(** [s.endswith(p)] *)
Definition endswith (p s : string) : bool :=
  String.prefix (String.rev p) (String.rev s).

(** [str(n)] for an integer *)
Definition str_int (n : Z) : string := pretty n.

(** Truth value of an optional string: [None] and [''] are false. *)
Definition truthy_str (s : option string) : bool :=
  match s with
  | Some (String _ _) => true
  | _ => false
  end.

(** Truth value of an optional integer: [None] and [0] are false. *)
Definition truthy_int (n : option Z) : bool :=
  match n with
  | Some n => negb (n =? 0)%Z
  | None => false
  end.

(** [float(n)] for [0 <= n < 2^63]; exact below 2^53. *)
Definition float_of_int (n : Z) : float := PrimFloat.of_uint63 (Uint63.of_Z n).

(** [int(x)]: truncation towards zero; [None] for an infinity or a NaN. *)
Definition int_of_float (x : float) : option Z :=
  match Prim2SF x with
  | S754_zero _ => Some 0
  | S754_finite s m e =>
      let magnitude :=
        if (0 <=? e)%Z then Z.shiftl (Z.pos m) e else Z.shiftr (Z.pos m) (- e) in
      Some (if s then - magnitude else magnitude)
  | _ => None
  end.

Definition opt_value (s : option string) : value :=
  match s with
  | Some s => VStr s
  | None => VNone
  end.

Definition opt_int_value (n : option Z) : value :=
  match n with
  | Some n => VInt n
  | None => VNone
  end.

(** [e.detail] of the service's HTTP exceptions (custom_exceptions.py). *)
Definition exc_detail `{Externals} (e : exn) : string :=
  match e with
  | HTTPException _ detail => detail
  | DataFrameValidationError detail _ _ _ _ _ _ => detail
  | FileReadError filename file_type _ =>
      "Failed to read " +:+ file_type +:+ " file '" +:+ filename
        +:+ "'. Please check if the file is valid and not corrupted."
  | _ => exc_str e
  end.

(** ** app/utils/data_validation.py *)

Definition validate_dataframe (df : DataFrame)
    (min_rows max_rows min_cols max_cols : Z) : outcome () :=
  if df_empty df then Raise (HTTPException 400 "Uploaded file is empty.")
  else
    let '(rows, cols) := df_shape df in
    if (rows <? min_rows)%Z || (cols <? min_cols)%Z then
      Raise (HTTPException 400
               ("File must have at least " +:+ str_int min_rows +:+ " row and "
                  +:+ str_int min_cols +:+ " column."))
    else if (max_rows <? rows)%Z then
      Raise (HTTPException 400
               ("File exceeds maximum allowed rows (" +:+ str_int max_rows +:+ ")."))
    else if (max_cols <? cols)%Z then
      Raise (HTTPException 400
               ("File exceeds maximum allowed columns (" +:+ str_int max_cols +:+ ")."))
    else if existsb (startswith "unnamed") (columns df) then
      Raise (HTTPException 400 "File Appears to have missing or invalid headers.")
    else Return ().

(** ** app/handlers/file_parser.py *)

Section file_parser.
Context `{Externals}.

Definition read_csv (contents : list byte) (encoding : option string)
    (nrows : option Z) (errors : option string) : IO DataFrame :=
  external (ReadCsv contents encoding nrows errors)
           (pd_read_csv contents encoding nrows errors).

Definition read_excel (contents : list byte) : IO DataFrame :=
  external (ReadExcel contents) (pd_read_excel contents).

Definition detect (contents : list byte) : IO detection :=
  external (Detect contents) (chardet_detect contents).

Definition common_encodings : list string :=
  ["utf-8"; "latin-1"; "iso-8859-1"; "cp1252"; "utf-16"].

(** [for enc in common_encodings: try: ... return df, enc except: continue];
    [None] when the loop runs out. *)
Fixpoint try_encodings (contents : list byte) (encodings : list string)
    : IO (option (DataFrame * option string)) :=
  match encodings with
  | [] => ret None
  | enc :: encodings' =>
      try_except
        (let* df := read_csv contents (Some enc) None None in
         ret (Some (df, Some enc)))
        (λ _, try_encodings contents encodings')
  end.

(** The detection block: [Some] is its [return], [None] falls through. *)
Definition try_detected (contents : list byte)
    : IO (option (DataFrame * option string)) :=
  try_except
    (let* detected := detect contents in
     let detected_encoding := det_encoding detected in
     let confidence := det_confidence detected in
     if PrimFloat.ltb 0.7%float confidence then
       try_except
         (let* df := read_csv contents detected_encoding None None in
          ret (Some (df, detected_encoding)))
         (λ _, ret None)
     else ret None)
    (λ _, ret None).

Definition _parse_csv_with_encoding (contents : list byte) (encoding : option string)
    : IO (DataFrame * option string) :=
  if truthy_str encoding then
    try_except
      (let* df := read_csv contents encoding None None in
       ret (df, encoding))
      (λ e, raise (FileReadError "CSV" "CSV"
                     ("Failed to parse with specified encoding '"
                        +:+ default "" encoding +:+ "': " +:+ exc_str e)))
  else
    let* found := try_detected contents in
    match found with
    | Some result => ret result
    | None =>
        let* found := try_encodings contents common_encodings in
        match found with
        | Some result => ret result
        | None =>
            try_except
              (let* df := read_csv contents (Some "utf-8") None (Some "replace") in
               ret (df, Some "utf-8"))
              (λ e, raise (FileReadError "CSV" "CSV"
                             ("Failed to parse CSV with any encoding. Last error: "
                                +:+ exc_str e)))
        end
    end.

Definition is_csv (filename : string) : bool := endswith ".csv" (lower filename).

Definition parse_file_contents (filename : string) (contents : list byte)
    (encoding : option string) : IO (DataFrame * string) :=
  let* parsed :=
    if is_csv filename then
      try_except
        (let* result := _parse_csv_with_encoding contents encoding in
         ret (result.1, "CSV"))
        (λ e, raise (FileReadError filename "CSV" (exc_str e)))
    else
      try_except
        (let* df := read_excel contents in
         ret (df, "XLSX"))
        (λ e, raise (FileReadError filename "XLSX" (exc_str e))) in
  let df := parsed.1 in
  match validate_dataframe df 1 1000000 1 500 with
  | Return _ => ret parsed
  | Raise e =>
      let '(row_count, col_count) := if df_empty df then (0, 0) else df_shape df in
      raise (DataFrameValidationError (exc_detail e)
               row_count col_count 1 1000000 1 500)
  end.

(** The dict of [detect_file_encoding], restricted to the key its callers read. *)
Definition detect_file_encoding (contents : list byte) : IO (option string) :=
  try_except
    (let* result := detect contents in
     ret (det_encoding result))
    (λ _, ret (Some "unknown")).

End file_parser.

(** ** app/handlers/large_file_processor.py *)

Section large_file_processor.
Context `{Externals}.

Definition count_newlines (sample : list N) : Z :=
  Z.of_nat (length (filter (λ c, c = 10%N) sample)).

Definition _count_csv_rows (contents : list byte) (encoding : option string) : IO Z :=
  try_except
    (let sample_size := Z.min 1024 (Z.of_nat (length contents)) in
     let prefix := take (Z.to_nat sample_size) contents in
     let* sample :=
       match encoding with
       | Some encoding =>
           external (DecodeIgnore prefix encoding) (bytes_decode_ignore prefix encoding)
       | None => raise (TypeError "decode() argument 'encoding' must be str, not None")
       end in
     let lines := count_newlines sample in
     if (0 <? lines)%Z then
       if (length prefix =? 0)%nat then raise ZeroDivisionError
       else
         let estimated_rows :=
           PrimFloat.mul
             (PrimFloat.div (float_of_int (Z.of_nat (length contents)))
                            (float_of_int (Z.of_nat (length prefix))))
             (float_of_int lines) in
         match int_of_float estimated_rows with
         | Some n => ret n
         | None => raise (ValueError "cannot convert float to integer")
         end
     else ret 0)
    (λ _, ret 0).

(** The loop of [_read_csv_in_chunks] over the reader, with its [break]. *)
Fixpoint read_chunks (yielded : list DataFrame) (failure : option exn)
    (chunks : list DataFrame) : outcome (list DataFrame) :=
  match yielded with
  | [] => match failure with
          | Some e => Raise e
          | None => Return chunks
          end
  | chunk :: yielded' =>
      let chunks := chunks ++ [chunk] in
      if (100 <? length chunks)%nat then Return chunks
      else read_chunks yielded' failure chunks
  end.

Definition _read_csv_in_chunks (contents : list byte) (chunk_size : Z)
    (encoding : option string) : IO DataFrame :=
  try_except
    (let* reader := external (ReadCsvChunks contents encoding chunk_size)
                             (pd_read_csv_chunks contents encoding chunk_size) in
     let* chunks := λ log, (read_chunks (yielded reader) (failure reader) [], log) in
     match chunks with
     | [] => ret (mkDataFrame [] [])
     | _ => ret (pd_concat chunks)
     end)
    (λ e, raise (FileReadError "CSV" "CSV"
                   ("Failed to read CSV in chunks: " +:+ exc_str e))).

Definition _parse_large_csv (contents : list byte) (chunk_size : Z)
    (sample_rows : option Z) (encoding : option string)
    : IO (DataFrame * string * gmap string value) :=
  let* encoding :=
    if negb (truthy_str encoding) then detect_file_encoding contents
    else ret encoding in
  if truthy_int sample_rows then
    try_except
      (let* df := read_csv contents encoding sample_rows None in
       ret (df, "CSV",
            <["encoding" := opt_value encoding]>
            (<["total_rows" := VInt (df_len df)]>
            (<["is_sampled" := VBool true]>
            (<["sample_size" := opt_int_value sample_rows]> ∅)))))
      (λ e, raise (FileReadError "CSV" "CSV" ("Failed to sample CSV: " +:+ exc_str e)))
  else
    try_except
      (let* total_rows := _count_csv_rows contents encoding in
       if (total_rows <=? chunk_size)%Z then
         let* result := _parse_csv_with_encoding contents encoding in
         ret (result.1, "CSV",
              <["encoding" := opt_value result.2]>
              (<["total_rows" := VInt total_rows]>
              (<["is_chunked" := VBool false]> ∅)))
       else
         let* df := _read_csv_in_chunks contents chunk_size encoding in
         ret (df, "CSV",
              <["encoding" := opt_value encoding]>
              (<["total_rows" := VInt total_rows]>
              (<["is_chunked" := VBool true]>
              (<["chunk_size" := VInt chunk_size]> ∅)))))
      (λ e, raise (FileReadError "CSV" "CSV"
                     ("Failed to parse large CSV: " +:+ exc_str e))).

Definition parse_large_file (filename : string) (contents : list byte)
    (chunk_size : Z) (sample_rows : option Z) (encoding : option string)
    : IO (DataFrame * string * gmap string value) :=
  let metadata : gmap string value :=
    <["chunk_size" := VInt chunk_size]>
    (<["sample_rows" := opt_int_value sample_rows]>
    (<["is_sampled" := VBool (bool_decide (is_Some sample_rows))]> ∅)) in
  if is_csv filename then
    try_except
      (let* result := _parse_large_csv contents chunk_size sample_rows encoding in
       let '(df, filetype, file_metadata) := result in
       (* metadata.update(file_metadata): the keys of file_metadata win *)
       ret (df, filetype, file_metadata ∪ metadata))
      (λ e, raise (FileReadError filename "CSV" (exc_str e)))
  else
    try_except
      (let* df := read_excel contents in
       ret (df, "XLSX", <["total_rows" := VInt (df_len df)]> metadata))
      (λ e, raise (FileReadError filename "XLSX" (exc_str e))).

End large_file_processor.

(** ** Vocabulary for the session properties *)

Module SessionModel.
Import SessionSecurity.

(** The owning client of a session dict, when its ['client_ip'] is a string. *)
Definition owner_of (session : gmap string value) : option string :=
  match session !! "client_ip" with
  | Some (VStr client_ip) => Some client_ip
  | _ => None
  end.

(** The dict a successful [get_session] hands out. *)
Definition refreshed (now : Z) (session : gmap string value) : gmap string value :=
  <["last_access_time" := VDatetime now]> session.

(** Every stored session names its owner. *)
Definition records_owned (self : t) : Prop :=
  ∀ session_id session,
    sessions self !! session_id = Some session → is_Some (owner_of session).

(** Every stored session carries a datetime as its last access. *)
Definition timestamps_dated (self : t) : Prop :=
  ∀ session_id session,
    sessions self !! session_id = Some session →
    ∃ last, session !! "last_access_time" = Some (VDatetime last).


(** The per-client index lists each id once, and only ids of live sessions
    of that client. *)
Definition index_sound (self : t) : Prop :=
  ∀ client_ip ids,
    client_sessions self !! client_ip = Some ids →
    NoDup ids
    ∧ ∀ session_id, session_id ∈ ids →
        ∃ session, sessions self !! session_id = Some session
                   ∧ owner_of session = Some client_ip.

Definition store_inv (self : t) : Prop := records_owned self ∧ index_sound self.


(** The calls a client of the store can make. *)
Inductive op :=
| Create (client_ip filename filetype session_id : string) (created accessed : Z)
| Get (session_id client_ip : string) (now : Z)
| Update (session_id client_ip : string) (updates : list (string * value)) (now : Z)
| Delete (session_id client_ip : string) (now : Z)
| ListFor (client_ip : string)
| Sweep (expiry_seconds now : Z).

(** The store after a call, whatever the call returned or raised. *)
Definition exec (o : op) (self : t) : t :=
  match o with
  | Create client_ip filename filetype session_id created accessed =>
      (create_session client_ip filename filetype session_id created accessed self).2
  | Get session_id client_ip now => (get_session session_id client_ip now self).2
  | Update session_id client_ip updates now =>
      (update_session session_id client_ip updates now self).2
  | Delete session_id client_ip now => (delete_session session_id client_ip now self).2
  | ListFor client_ip => (get_client_sessions client_ip self).2
  | Sweep expiry_seconds now => (cleanup_expired_sessions expiry_seconds now self).2
  end.

Definition exec_all (ops : list op) (self : t) : t := foldl (λ s o, exec o s) self ops.

(** The token a call draws, if it is a creation. *)
Definition creates (o : op) : option string :=
  match o with
  | Create _ _ _ session_id _ _ => Some session_id
  | _ => None
  end.

(** [secrets.token_urlsafe(32)] draws 256 random bits: a creation never
    repeats the id of a live session. *)
Definition fresh (o : op) (self : t) : Prop :=
  match creates o with
  | Some session_id => sessions self !! session_id = None
  | None => True
  end.

(** The call leaves ['last_access_time'] to the store. *)
Definition keeps_clock (o : op) : Prop :=
  match o with
  | Update _ _ updates _ => "last_access_time" ∉ updates.*1
  | _ => True
  end.


Inductive reachable : t → Prop :=
| reachable_init : reachable init
| reachable_exec self o : reachable self → fresh o self → reachable (exec o self).

End SessionModel.

(** ** A small store used in the examples *)

Module Demo.
Import SessionSecurity SessionModel.

Definition alice : string := "10.0.0.1".
Definition bob : string := "10.0.0.2".

(** Alice uploads at second 0, Bob at second 3000. *)
Definition uploads : list op :=
  [Create alice "a.csv" "CSV" "tokA" 0 0;
   Create bob "b.csv" "CSV" "tokB" 3000000000 3000000000].

Definition two_clients : t := exec_all uploads init.

(** What Alice does to her own session afterwards. *)
Definition alice_traffic : list op :=
  [Update "tokA" alice [("df", VObject "DataFrame"); ("row_count", VInt 5)] 10;
   Get "tokA" alice 20;
   Get "tokA" bob 30;
   Update "tokA" bob [("filename", VStr "x.csv")] 40;
   Update "tokA" alice [("client_ip", VStr bob)] 45;
   Create bob "c.csv" "CSV" "tokC" 50 50;
   Sweep 3600 60;
   ListFor alice].



(** Alice overwrites the creation time of her session with a string; the
    store a sweep leaves an hour after her upload. *)
Definition creation_overwritten : t :=
  exec (Update "tokA" alice [("created_time", VStr "yesterday")] 10) two_clients.

Definition sweep_stopped : t :=
  (cleanup_expired_sessions 3600 3601000000 creation_overwritten).2.

End Demo.

(** ** Vocabulary for the ingestion properties *)

Section ingestion_model.
Context `{Externals}.

(** The encoding [_parse_large_csv] works with: the caller's, or what
    [detect_file_encoding] reports. *)
Definition resolved_encoding (contents : list byte) (encoding : option string)
    : option string :=
  if truthy_str encoding then encoding
  else match chardet_detect contents with
       | Return result => det_encoding result
       | Raise _ => Some "unknown"
       end.

(** The row estimate of [_count_csv_rows]; the function catches whatever
    goes wrong and answers 0. *)
Definition estimated_rows (contents : list byte) (encoding : option string) : Z :=
  match (_count_csv_rows contents encoding []).1 with
  | Return n => n
  | Raise _ => 0
  end.

(** The calls of the detection block of [_parse_csv_with_encoding]. *)
Definition detection_calls (contents : list byte) : list call :=
  Detect contents ::
  match chardet_detect contents with
  | Return detected =>
      if PrimFloat.ltb 0.7%float (det_confidence detected)
      then [ReadCsv contents (det_encoding detected) None None]
      else []
  | Raise _ => []
  end.

(** Whenever detection is confident enough for its encoding to be tried,
    the read under that encoding fails. *)
Definition detected_parse_fails (contents : list byte) : Prop :=
  ∀ detected,
    chardet_detect contents = Return detected →
    PrimFloat.ltb 0.7%float (det_confidence detected) = true →
    ∃ e, pd_read_csv contents (det_encoding detected) None None = Raise e.

(** [pd.read_csv] has no parameter named [errors] (the decoding policy is
    passed as [encoding_errors]): a call that gives one raises [TypeError]
    when the arguments are bound, before a byte is read. *)
Definition rejects_errors_keyword : Prop :=
  ∀ contents encoding nrows errors,
    pd_read_csv contents encoding nrows (Some errors)
    = Raise (TypeError "read_csv() got an unexpected keyword argument 'errors'").

End ingestion_model.


Definition is_chunked_read (c : call) : bool :=
  match c with
  | ReadCsvChunks _ _ _ => true
  | _ => false
  end.


(** The call inside [_count_csv_rows]. *)
Definition is_estimate (c : call) : bool :=
  match c with
  | DecodeIgnore _ _ => true
  | _ => false
  end.

(** ** A stand-in for the libraries, used in the examples

    Plain comma-separated ASCII text without quoting: the first line is the
    header, an empty header cell is named ["Unnamed: i"] as pandas does, and
    every later line is a row. *)

Module Toy.

Definition newline : byte := "010"%byte.
Definition comma : byte := ","%byte.

Fixpoint split_on (sep : byte) (bytes current : list byte) : list (list byte) :=
  match bytes with
  | [] => [rev current]
  | b :: bytes' =>
      if Byte.eqb b sep then rev current :: split_on sep bytes' []
      else split_on sep bytes' (b :: current)
  end.

(** The lines of the text; a final newline does not open another line. *)
Definition lines (contents : list byte) : list (list byte) :=
  filter (λ l, l ≠ []) (split_on newline contents []).

Definition cells (line : list byte) : list string :=
  string_of_list_byte <$> split_on comma line [].

Definition header (line : list byte) : list string :=
  imap (λ i c, if decide (c = "") then "Unnamed: " +:+ pretty i else c) (cells line).

Definition parse (contents : list byte) : outcome DataFrame :=
  match lines contents with
  | [] => Raise (LibraryError "No columns to parse from file")
  | h :: body =>
      let columns := header h in
      let rows := cells <$> body in
      if forallb (λ r, (length r =? length columns)%nat) rows
      then Return (mkDataFrame columns rows)
      else Raise (LibraryError "Error tokenizing data")
  end.

(** Consecutive chunks of [size] rows; the last one may be shorter. *)
Fixpoint chunk_rows {A} (size : nat) (rows current : list A) (room : nat)
    : list (list A) :=
  match rows with
  | [] => match current with
          | [] => []
          | _ => [rev current]
          end
  | r :: rows' =>
      match room with
      | O => rev current :: chunk_rows size rows' [r] (size - 1)
      | S room' => chunk_rows size rows' (r :: current) room'
      end
  end.

Definition read_csv (contents : list byte) (encoding : option string)
    (nrows : option Z) (errors : option string) : outcome DataFrame :=
  match errors with
  | Some _ => Raise (TypeError "read_csv() got an unexpected keyword argument 'errors'")
  | None =>
      match parse contents, nrows with
      | Return df, Some n =>
          if (n <? 0)%Z then Raise (ValueError "'nrows' must be an integer >=0")
          else Return (mkDataFrame (columns df) (take (Z.to_nat n) (rows df)))
      | result, _ => result
      end
  end.

Definition read_csv_chunks (contents : list byte) (encoding : option string)
    (chunksize : Z) : outcome chunk_reader :=
  if (chunksize <? 1)%Z then Raise (ValueError "'chunksize' must be an integer >=1")
  else
    match parse contents with
    | Return df =>
        let size := Z.to_nat chunksize in
        Return {| yielded := mkDataFrame (columns df) <$> chunk_rows size (rows df) [] size;
                  failure := None |}
    | Raise e => Raise e
    end.

Definition detect (contents : list byte) : outcome detection :=
  match contents with
  | [] => Return (mkDetection None 0%float None)
  | _ => Return (mkDetection (Some "ascii") 1%float (Some ""))
  end.

Definition decode_ignore (bytes : list byte) (encoding : string) : outcome (list N) :=
  Return (Byte.to_N <$> bytes).

Definition str (e : exn) : string :=
  match e with
  | KeyError key => "'" +:+ key +:+ "'"
  | TypeError msg | ValueError msg | LibraryError msg => msg
  | ZeroDivisionError => "division by zero"
  | HTTPException status_code detail => pretty status_code +:+ ": " +:+ detail
  | FileReadError _ _ _ => "500: Failed to read file"
  | DataFrameValidationError detail _ _ _ _ _ _ => "400: " +:+ detail
  end.

#[export] Instance externals : Externals := {|
  pd_read_csv := read_csv;
  pd_read_csv_chunks := read_csv_chunks;
  pd_read_excel := λ _, Raise (LibraryError "File is not a zip file");
  chardet_detect := detect;
  bytes_decode_ignore := decode_ignore;
  exc_str := str
|}.

(** The bytes of a text file with the given lines. *)
Definition text (lines : list string) : list byte :=
  mjoin ((λ l, list_byte_of_string l ++ [newline]) <$> lines).

End Toy.

(** ** Inputs used in the examples *)

Module Inputs.

(** The third line has a cell too many: no encoding makes it a table. *)
Definition ragged : list byte := Toy.text ["a,b"; "1,2"; "3,4,5"].

End Inputs.

(** * Python's true division

    The rounding of [true_divide] is correct by construction; the lemmas
    below say how far the rounded quotient can be from the exact one, and a
    check against the division of the hardware follows. *)





(** On the sample spans [true_divide] returns the double that the
    hardware division of the two converted ints returns. *)
Lemma true_divide_agrees_with_hardware :
  forallb agrees_with_hardware sample_spans = true.
Proof. vm_compute. reflexivity. Qed.

(** * Properties of the session store *)

Module SessionFacts.
Import SessionSecurity SessionModel.

(** *** Basic facts *)

Lemma owner_of_refreshed now session :
  owner_of (refreshed now session) = owner_of session.
Proof. unfold owner_of, refreshed. by rewrite lookup_insert_ne. Qed.

Lemma size_refreshed now session : size (refreshed now session) ≠ 0%nat.
Proof.
  unfold refreshed. intros Hsize. apply map_size_empty_iff in Hsize.
  by apply insert_non_empty in Hsize.
Qed.


(** How [get_session] can end. *)
Lemma get_session_cases self session_id client_ip now :
  (sessions self !! session_id = None
   ∧ get_session session_id client_ip now self = (Return None, self))
  ∨ (∃ session,
       sessions self !! session_id = Some session
       ∧ owner_of session = Some client_ip
       ∧ get_session session_id client_ip now self
         = (Return (Some (refreshed now session)),
            {| sessions := <[session_id := refreshed now session]> (sessions self);
               client_sessions := client_sessions self |}))
  ∨ (∃ session,
       sessions self !! session_id = Some session
       ∧ owner_of session ≠ Some client_ip
       ∧ (get_session session_id client_ip now self = (Return None, self)
          ∨ owner_of session = None
            ∧ ∃ e, get_session session_id client_ip now self = (Raise e, self))).
Proof.
  unfold get_session.
  destruct (sessions self !! session_id) as [session|] eqn:Hs; [|by left].
  right.
  destruct (session !! "client_ip") as [[|b|z|f|owner|t0|df|repr]|] eqn:Ho;
    try (right; exists session; split; [done|];
         assert (owner_of session = None) as Hn
           by (unfold owner_of; by rewrite Ho);
         rewrite Hn; split; [done|]; by eauto).
  assert (owner_of session = Some owner) as Hn
    by (unfold owner_of; by rewrite Ho).
  destruct (decide (owner = client_ip)) as [->|Hne].
  - left. by exists session.
  - right. exists session. split; [done|]. split; [congruence|]. by left.
Qed.

Lemma merge_updates_lookup updates session key :
  key ∉ updates.*1 →
  merge_updates updates session !! key = session !! key.
Proof.
  unfold merge_updates. revert session.
  induction updates as [|[k v] updates IH]; intros session Hkey; [done|].
  cbn in *. apply not_elem_of_cons in Hkey as [Hne Hkey].
  rewrite IH by done. by rewrite lookup_insert_ne.
Qed.

Lemma binds_parameter_false updates key :
  binds_parameter updates = false → key ∈ parameter_names → key ∉ updates.*1.
Proof.
  unfold binds_parameter. intros Hb Hp Hin.
  apply list_elem_of_fmap in Hin as ([k v] & -> & Hin).
  assert (existsb (λ kv, bool_decide (kv.1 ∈ parameter_names)) updates = true)
    as Ht; [|congruence].
  apply existsb_exists. exists (k, v). split; [by apply list_elem_of_In|].
  by apply bool_decide_eq_true.
Qed.

Lemma client_ip_parameter : "client_ip" ∈ parameter_names.
Proof. unfold parameter_names. set_solver. Qed.

Lemma owner_of_merge updates session :
  binds_parameter updates = false →
  owner_of (merge_updates updates session) = owner_of session.
Proof.
  intros Hb. unfold owner_of. rewrite merge_updates_lookup; [done|].
  eapply binds_parameter_false; [done|apply client_ip_parameter].
Qed.

(** *** Removing ids from the client index *)

Lemma list_remove_None x l : list_remove x l = None → x ∉ l.
Proof.
  induction l as [|y l IH]; cbn; [intros _; apply not_elem_of_nil|].
  destruct (decide (y = x)) as [->|Hne]; [done|].
  destruct (list_remove x l); [done|].
  intros _. apply not_elem_of_cons. split; [done|by apply IH].
Qed.

Lemma list_remove_Some x l l' :
  list_remove x l = Some l' →
  (∀ y, y ∈ l' → y ∈ l)
  ∧ (∀ y, y ∈ l → y ≠ x → y ∈ l')
  ∧ (NoDup l → NoDup l' ∧ x ∉ l').
Proof.
  revert l'. induction l as [|y l IH]; intros l'; cbn; [done|].
  destruct (decide (y = x)) as [->|Hne].
  - intros [= <-]. split; [intros; by apply elem_of_cons; right|].
    split; [intros y Hy Hne; apply elem_of_cons in Hy as [->|Hy]; done|].
    intros Hnd. apply NoDup_cons in Hnd. by destruct Hnd.
  - destruct (list_remove x l) as [l1|]; [|done]. cbn.
    intros [= <-]. destruct (IH _ eq_refl) as (Hsub & Hkeep & Hnd).
    split; [|split].
    + intros z Hz. apply elem_of_cons in Hz as [->|Hz];
        apply elem_of_cons; [by left|right; by apply Hsub].
    + intros z Hz Hzx. apply elem_of_cons in Hz as [->|Hz];
        apply elem_of_cons; [by left|right; by apply Hkeep].
    + intros Hl. apply NoDup_cons in Hl as [Hy Hl].
      destruct (Hnd Hl) as [Hnd1 Hx]. split.
      * apply NoDup_cons. split; [|done]. intros Hin. by apply Hy, Hsub.
      * apply not_elem_of_cons. split; [congruence|done].
Qed.

Lemma lookup_discard client_ip session_id index c ids' :
  discard_from_index client_ip session_id index !! c = Some ids' →
  ∃ ids, index !! c = Some ids
         ∧ (∀ y, y ∈ ids' → y ∈ ids)
         ∧ (∀ y, y ∈ ids → y ≠ session_id → y ∈ ids')
         ∧ (NoDup ids → NoDup ids' ∧ (c = client_ip → session_id ∉ ids')).
Proof.
  unfold discard_from_index.
  destruct (index !! client_ip) as [ids0|] eqn:Hi.
  - destruct (list_remove session_id ids0) as [ids1|] eqn:Hr.
    + destruct (list_remove_Some _ _ _ Hr) as (Hsub & Hkeep & Hnd).
      destruct (decide (c = client_ip)) as [->|Hne].
      * rewrite lookup_insert_eq. intros [= <-]. exists ids0.
        split; [done|]. split; [done|]. split; [done|].
        intros Hnd0. destruct (Hnd Hnd0). done.
      * rewrite lookup_insert_ne by done. intros Hc. exists ids'.
        split; [done|]. split; [done|]. split; [done|]. by intros.
    + intros Hc. exists ids'. split; [done|]. split; [done|]. split; [done|].
      intros Hnd0. split; [done|]. intros ->.
      apply list_remove_None in Hr. congruence.
  - intros Hc. exists ids'. split; [done|]. split; [done|]. split; [done|].
    intros Hnd0. split; [done|]. intros ->. congruence.
Qed.

(** The second loop of the sweep only deletes sessions. *)
Lemma remove_expired_sessions now expired self session_id session :
  sessions (remove_expired now expired self).2 !! session_id = Some session →
  sessions self !! session_id = Some session.
Proof.
  revert self. induction expired as [|sid expired IH]; intros self; [done|].
  cbn [remove_expired]. destruct (sessions self !! sid) as [s|] eqn:Hs; [|done].
  destruct (s !! "client_ip") as [owner|]; [|done].
  assert (∀ index,
            sessions {| sessions := delete sid (sessions self);
                        client_sessions := index |} !! session_id = Some session →
            sessions self !! session_id = Some session) as Hdropped.
  { intros index Hl. cbn in Hl. apply lookup_delete_Some in Hl. by destruct Hl. }
  destruct (s !! "created_time") as [[|b|z|f|str|created|df|repr]|];
    cbn [snd]; try apply Hdropped.
  intros Hl. apply IH in Hl. by eapply Hdropped.
Qed.

Lemma cleanup_sessions expiry now self session_id session :
  sessions (cleanup_expired_sessions expiry now self).2 !! session_id = Some session →
  sessions self !! session_id = Some session.
Proof.
  unfold cleanup_expired_sessions.
  destruct (collect_expired _ _ _ _); [|done].
  apply remove_expired_sessions.
Qed.

(** *** The invariant of the store *)

Lemma store_inv_init : store_inv init.
Proof.
  split.
  - intros sid s Hs. cbn in Hs. by rewrite lookup_empty in Hs.
  - intros c ids Hc. cbn in Hc. by rewrite lookup_empty in Hc.
Qed.

(** Rewriting a stored session without touching its owner. *)
Lemma store_inv_touch self session_id s s' :
  store_inv self →
  sessions self !! session_id = Some s →
  owner_of s' = owner_of s →
  store_inv {| sessions := <[session_id := s']> (sessions self);
               client_sessions := client_sessions self |}.
Proof.
  intros [Hown Hidx] Hs Ho. split.
  - intros sid x Hx. cbn in Hx. apply lookup_insert_Some in Hx as [[<- <-]|[_ Hx]].
    + rewrite Ho. by eapply Hown.
    + by eapply Hown.
  - intros c ids Hc. cbn in Hc. destruct (Hidx _ _ Hc) as [Hnd Hel].
    split; [done|]. intros sid Hsid. destruct (Hel _ Hsid) as (x & Hx & Hxo). cbn.
    destruct (decide (session_id = sid)) as [->|Hne].
    + rewrite lookup_insert_eq. exists s'. split; [done|]. congruence.
    + rewrite lookup_insert_ne by done. eauto.
Qed.

(** Dropping a stored session together with its index entry. *)
Lemma store_inv_drop self session_id s client_ip :
  store_inv self →
  sessions self !! session_id = Some s →
  owner_of s = Some client_ip →
  store_inv {| sessions := delete session_id (sessions self);
               client_sessions :=
                 discard_from_index client_ip session_id (client_sessions self) |}.
Proof.
  intros [Hown Hidx] Hs Ho. split.
  - intros sid x Hx. cbn in Hx. apply lookup_delete_Some in Hx as [_ Hx].
    by eapply Hown.
  - intros c ids' Hc. cbn in Hc.
    destruct (lookup_discard _ _ _ _ _ Hc) as (ids & Hi & Hsub & _ & Hnd).
    destruct (Hidx _ _ Hi) as [Hnd0 Hel]. destruct (Hnd Hnd0) as [Hnd' Hout].
    split; [done|]. intros sid Hsid. cbn.
    destruct (Hel _ (Hsub _ Hsid)) as (x & Hx & Hxo).
    exists x. split; [|done]. rewrite lookup_delete_ne; [done|].
    intros <-. rewrite Hs in Hx. injection Hx as <-.
    assert (c = client_ip) as -> by congruence. by apply Hout.
Qed.

Lemma store_inv_remove_expired now expired self :
  store_inv self → store_inv (remove_expired now expired self).2.
Proof.
  revert self. induction expired as [|sid expired IH]; intros self Hinv; [done|].
  cbn [remove_expired]. destruct (sessions self !! sid) as [s|] eqn:Hs; [|done].
  destruct (proj1 Hinv _ _ Hs) as [c Hc].
  pose proof Hc as Hc'. unfold owner_of in Hc'.
  destruct (s !! "client_ip") as [[|b|z|f|owner|t0|df|repr]|]; try done.
  injection Hc' as ->.
  pose proof (store_inv_drop _ _ _ _ Hinv Hs Hc) as Hdropped.
  destruct (s !! "created_time") as [[|b|z|f|str|created|df|repr]|];
    cbn [snd]; try exact Hdropped.
  by apply IH.
Qed.

Lemma store_inv_exec o self :
  store_inv self → fresh o self → store_inv (exec o self).
Proof.
  intros Hinv Hfresh.
  destruct o as [c fn ft sid cr ac|sid c now|sid c updates now|sid c now|c|expiry now];
    cbn in *.
  - destruct Hinv as [Hown Hidx]. unfold fresh in Hfresh. cbn in Hfresh.
    split.
    + intros sid' x Hx. cbn in Hx.
      apply lookup_insert_Some in Hx as [[<- <-]|[_ Hx]]; [|by eapply Hown].
      unfold owner_of. rewrite lookup_insert_ne by done.
      rewrite lookup_insert_eq. by eexists.
    + intros c' ids' Hc'. cbn in Hc'. cbn.
      apply lookup_insert_Some in Hc' as [[<- <-]|[Hne Hc']].
      * assert (NoDup (default [] (client_sessions self !! c))
                ∧ ∀ y, y ∈ default [] (client_sessions self !! c) →
                       y ≠ sid
                       ∧ ∃ x, sessions self !! y = Some x ∧ owner_of x = Some c)
          as [Hnd Hel].
        { destruct (client_sessions self !! c) as [ids|] eqn:Hc; cbn.
          - destruct (Hidx _ _ Hc) as [Hnd Hel]. split; [done|].
            intros y Hy. split; [|by apply Hel].
            destruct (Hel _ Hy) as (x & Hx & _). congruence.
          - split; [apply NoDup_nil_2|]. intros y Hy. by apply not_elem_of_nil in Hy. }
        split.
        -- apply NoDup_app. split; [done|]. split; [|apply NoDup_singleton].
           intros y Hy Hy'. apply list_elem_of_singleton in Hy'.
           by destruct (Hel _ Hy).
        -- intros y Hy. apply elem_of_app in Hy as [Hy|Hy].
           ++ destruct (Hel _ Hy) as [Hne (x & Hx & Hxo)].
              rewrite lookup_insert_ne by done. eauto.
           ++ apply list_elem_of_singleton in Hy as ->.
              rewrite lookup_insert_eq. eexists. split; [done|].
              unfold owner_of. rewrite lookup_insert_ne by done.
              by rewrite lookup_insert_eq.
      * destruct (Hidx _ _ Hc') as [Hnd Hel]. split; [done|].
        intros y Hy. destruct (Hel _ Hy) as (x & Hx & Hxo).
        rewrite lookup_insert_ne by congruence. eauto.
  - destruct (get_session_cases self sid c now)
      as [[_ Hg]|[(s & Hs & _ & Hg)|(s & _ & _ & [Hg|[_ [e Hg]]])]];
      rewrite Hg; cbn; try done.
    eapply store_inv_touch; [done..|apply owner_of_refreshed].
  - unfold update_session, raise, bind, ret.
    destruct (binds_parameter updates) eqn:Hb; cbn; [done|].
    destruct (get_session_cases self sid c now)
      as [[_ Hg]|[(s & Hs & _ & Hg)|(s & _ & _ & [Hg|[_ [e Hg]]])]];
      rewrite Hg; cbn; try done.
    destruct (decide _) as [Hsize|_]; [by apply size_refreshed in Hsize|]. cbn.
    rewrite insert_insert_eq. eapply store_inv_touch; [done..|].
    rewrite owner_of_merge by done. apply owner_of_refreshed.
  - unfold delete_session, bind, ret.
    destruct (get_session_cases self sid c now)
      as [[_ Hg]|[(s & Hs & Ho & Hg)|(s & _ & _ & [Hg|[_ [e Hg]]])]];
      rewrite Hg; cbn; try done.
    destruct (decide _) as [Hsize|_]; [by apply size_refreshed in Hsize|]. cbn.
    rewrite delete_insert_eq. by eapply store_inv_drop.
  - unfold get_client_sessions. by destruct (client_sessions self !! c).
  - unfold cleanup_expired_sessions.
    destruct (collect_expired _ _ _ _); [|done].
    by apply store_inv_remove_expired.
Qed.

(** Every store the service can be in satisfies the invariant. *)
Lemma reachable_store_inv self : reachable self → store_inv self.
Proof.
  induction 1 as [|self o _ IH Hfresh]; [apply store_inv_init|].
  by apply store_inv_exec.
Qed.


Lemma timestamps_dated_init : timestamps_dated init.
Proof. intros sid s Hs. cbn in Hs. by rewrite lookup_empty in Hs. Qed.

Lemma timestamps_dated_exec o self :
  timestamps_dated self → keeps_clock o → timestamps_dated (exec o self).
Proof.
  intros Hd Hclock.
  destruct o as [c fn ft sid cr ac|sid c now|sid c updates now|sid c now|c|expiry now];
    cbn in *.
  - intros sid' x Hx. cbn in Hx.
    apply lookup_insert_Some in Hx as [[<- <-]|[_ Hx]]; [|by eapply Hd].
    exists ac. by rewrite !lookup_insert_ne, lookup_insert_eq by done.
  - destruct (get_session_cases self sid c now)
      as [[_ Hg]|[(s & Hs & _ & Hg)|(s & _ & _ & [Hg|[_ [e Hg]]])]];
      rewrite Hg; cbn; try done.
    intros sid' x Hx. cbn in Hx.
    apply lookup_insert_Some in Hx as [[<- <-]|[_ Hx]]; [|by eapply Hd].
    exists now. unfold refreshed. by rewrite lookup_insert_eq.
  - unfold update_session, raise, bind, ret.
    destruct (binds_parameter updates) eqn:Hb; cbn; [done|].
    destruct (get_session_cases self sid c now)
      as [[_ Hg]|[(s & Hs & _ & Hg)|(s & _ & _ & [Hg|[_ [e Hg]]])]];
      rewrite Hg; cbn; try done.
    destruct (decide _) as [Hsize|_]; [by apply size_refreshed in Hsize|]. cbn.
    intros sid' x Hx. cbn in Hx. rewrite insert_insert_eq in Hx.
    apply lookup_insert_Some in Hx as [[<- <-]|[_ Hx]]; [|by eapply Hd].
    exists now. rewrite merge_updates_lookup by done.
    unfold refreshed. by rewrite lookup_insert_eq.
  - unfold delete_session, bind, ret.
    destruct (get_session_cases self sid c now)
      as [[_ Hg]|[(s & Hs & Ho & Hg)|(s & _ & _ & [Hg|[_ [e Hg]]])]];
      rewrite Hg; cbn; try done.
    destruct (decide _) as [Hsize|_]; [by apply size_refreshed in Hsize|]. cbn.
    intros sid' x Hx. cbn in Hx. rewrite delete_insert_eq in Hx.
    apply lookup_delete_Some in Hx as [_ Hx]. by eapply Hd.
  - unfold get_client_sessions. by destruct (client_sessions self !! c).
  - intros sid' x Hx. apply cleanup_sessions in Hx. by eapply Hd.
Qed.



(** *** The example store *)

Lemma two_clients_reachable : reachable Demo.two_clients.
Proof.
  unfold Demo.two_clients, Demo.uploads, exec_all. cbn [foldl].
  apply reachable_exec; [apply reachable_exec; [apply reachable_init|]|];
    vm_compute; reflexivity.
Qed.

Lemma two_clients_dated : timestamps_dated Demo.two_clients.
Proof.
  unfold Demo.two_clients, Demo.uploads, exec_all. cbn [foldl].
  do 2 (apply timestamps_dated_exec; [|exact I]). apply timestamps_dated_init.
Qed.


(** *** Isolation *)

(** C1 — [get_session] hands out a session only to its owner: a returned
    dict is the stored one (last access refreshed) and its owner is the
    requester; when the session is absent or owned by another client the
    call returns [None] and leaves the store as it was, so the two cases
    cannot be told apart. *)
Theorem get_session_owner_only self session_id requester now :
  records_owned self →
  (∀ session' self',
     get_session session_id requester now self = (Return (Some session'), self') →
     ∃ session, sessions self !! session_id = Some session
                ∧ owner_of session = Some requester
                ∧ session' = refreshed now session)
  ∧ ((sessions self !! session_id = None
      ∨ ∃ session owner, sessions self !! session_id = Some session
                         ∧ owner_of session = Some owner ∧ owner ≠ requester) →
     get_session session_id requester now self = (Return None, self))
  ∧ (get_session session_id requester now self = (Return None, self)
     ∨ ∃ session, sessions self !! session_id = Some session
                  ∧ owner_of session = Some requester
                  ∧ (get_session session_id requester now self).1
                    = Return (Some (refreshed now session))).
Proof.
  intros Howned.
  destruct (get_session_cases self session_id requester now)
    as [[Hs Hg]|[(session & Hs & Ho & Hg)|(session & Hs & Ho & Hg)]].
  - rewrite Hg. split; [intros ? ? [=]|]. split; [done|by left].
  - rewrite Hg. split; [|split].
    + intros ? ? [= <- <-]. by exists session.
    + intros [Hn|(s & o & Hs' & Ho' & Hne)]; congruence.
    + right. by exists session.
  - destruct (Howned _ _ Hs) as [owner Hown].
    destruct Hg as [Hg|[Hn _]]; [|congruence].
    rewrite Hg. split; [intros ? ? [=]|]. split; [done|by left].
Qed.

Lemma get_session_owner_only_witness :
  records_owned Demo.two_clients
  ∧ get_session "tokB" Demo.alice 7 Demo.two_clients = (Return None, Demo.two_clients)
  ∧ get_session "tokZ" Demo.alice 7 Demo.two_clients = (Return None, Demo.two_clients).
Proof.
  pose proof (proj1 (reachable_store_inv _ two_clients_reachable)) as Hown.
  split; [exact Hown|].
  destruct (get_session_owner_only Demo.two_clients "tokB" Demo.alice 7 Hown)
    as (_ & Hother & _).
  destruct (get_session_owner_only Demo.two_clients "tokZ" Demo.alice 7 Hown)
    as (_ & Habsent & _).
  split.
  - apply Hother. right. eexists _, Demo.bob. split; [reflexivity|].
    split; [reflexivity|discriminate].
  - apply Habsent. left. reflexivity.
Defined.

(** C10 — a [False] from [update_session] means nothing was written: the
    sessions table and the client index are the ones before the call, and
    the session was absent or not the requester's. *)
Theorem update_session_false_unchanged self self' session_id client_ip updates now :
  update_session session_id client_ip updates now self = (Return false, self') →
  self' = self
  ∧ (sessions self !! session_id = None
     ∨ ∃ session, sessions self !! session_id = Some session
                  ∧ owner_of session ≠ Some client_ip).
Proof.
  unfold update_session, raise, bind, ret.
  destruct (binds_parameter updates); [intros [=]|].
  destruct (get_session_cases self session_id client_ip now)
    as [[Hs Hg]|[(session & Hs & Ho & Hg)|(session & Hs & Ho & [Hg|[_ [e Hg]]])]];
    rewrite Hg.
  - intros [= <-]. split; [done|by left].
  - destruct (decide _) as [Hsize|_]; [by apply size_refreshed in Hsize|].
    intros [=].
  - intros [= <-]. split; [done|]. right. by exists session.
  - intros [=].
Qed.

Lemma update_session_false_unchanged_witness :
  update_session "tokB" Demo.alice [("row_count", VInt 5)] 9 Demo.two_clients
  = (Return false, Demo.two_clients)
  ∧ Demo.two_clients = Demo.two_clients
  ∧ (sessions Demo.two_clients !! "tokB" = None
     ∨ ∃ session, sessions Demo.two_clients !! "tokB" = Some session
                  ∧ owner_of session ≠ Some Demo.alice).
Proof.
  assert (update_session "tokB" Demo.alice [("row_count", VInt 5)] 9 Demo.two_clients
          = (Return false, Demo.two_clients)) as Hcall by (vm_compute; reflexivity).
  split; [exact Hcall|].
  exact (update_session_false_unchanged _ _ _ _ _ _ Hcall).
Defined.

(** *** The owner field is never written *)

(** One call: a session found afterwards was there before, with the same
    ['client_ip'], unless the call created it. *)
Lemma exec_keeps_owner o self session_id session' :
  creates o ≠ Some session_id →
  sessions (exec o self) !! session_id = Some session' →
  ∃ session, sessions self !! session_id = Some session
             ∧ session' !! "client_ip" = session !! "client_ip".
Proof.
  intros Hc.
  destruct o as [c fn ft sid cr ac|sid c now|sid c updates now|sid c now|c|expiry now];
    cbn in *.
  - rewrite lookup_insert_ne by congruence. eauto.
  - destruct (get_session_cases self sid c now)
      as [[_ Hg]|[(s & Hs & _ & Hg)|(s & _ & _ & [Hg|[_ [e Hg]]])]];
      rewrite Hg; cbn; eauto.
    destruct (decide (sid = session_id)) as [->|Hne].
    + rewrite lookup_insert_eq. intros [= <-]. exists s. split; [done|].
      unfold refreshed. by rewrite lookup_insert_ne.
    + rewrite lookup_insert_ne by done. eauto.
  - unfold update_session, raise, bind, ret.
    destruct (binds_parameter updates) eqn:Hb; cbn; [eauto|].
    destruct (get_session_cases self sid c now)
      as [[_ Hg]|[(s & Hs & _ & Hg)|(s & _ & _ & [Hg|[_ [e Hg]]])]];
      rewrite Hg; cbn; eauto.
    destruct (decide _) as [Hsize|_]; [by apply size_refreshed in Hsize|]. cbn.
    destruct (decide (sid = session_id)) as [->|Hne].
    + rewrite lookup_insert_eq. intros [= <-]. exists s. split; [done|].
      rewrite merge_updates_lookup
        by (eapply binds_parameter_false; [done|apply client_ip_parameter]).
      unfold refreshed. by rewrite lookup_insert_ne.
    + rewrite !lookup_insert_ne by done. eauto.
  - unfold delete_session, bind, ret.
    destruct (get_session_cases self sid c now)
      as [[_ Hg]|[(s & Hs & _ & Hg)|(s & _ & _ & [Hg|[_ [e Hg]]])]];
      rewrite Hg; cbn; eauto.
    destruct (decide _) as [Hsize|_]; [by apply size_refreshed in Hsize|]. cbn.
    intros Hl. apply lookup_delete_Some in Hl as [Hne Hl].
    rewrite lookup_insert_ne in Hl by done. eauto.
  - unfold get_client_sessions. destruct (client_sessions self !! c); cbn; eauto.
  - intros Hl. apply cleanup_sessions in Hl. eauto.
Qed.

Lemma exec_all_keeps_owner ops self session_id session' :
  Forall (λ o, creates o ≠ Some session_id) ops →
  sessions (exec_all ops self) !! session_id = Some session' →
  ∃ session, sessions self !! session_id = Some session
             ∧ session' !! "client_ip" = session !! "client_ip".
Proof.
  unfold exec_all. revert self.
  induction ops as [|o ops IH]; intros self Hops Hl; cbn in *; [eauto|].
  apply Forall_cons in Hops as [Ho Hops].
  destruct (IH _ Hops Hl) as (s1 & Hs1 & Heq1).
  destruct (exec_keeps_owner _ _ _ _ Ho Hs1) as (s0 & Hs0 & Heq0).
  exists s0. split; [done|congruence].
Qed.

(** C2 — the owner written by [create_session] stays: after any later
    calls of [get_session], [update_session] (whatever its fields),
    [delete_session], [get_client_sessions], the expiry sweep, and
    creations of other sessions, a session that is still stored carries
    the ['client_ip'] it was created with. *)
Theorem owner_fixed_at_creation self client_ip filename filetype session_id
    created accessed ops session :
  Forall (λ o, creates o ≠ Some session_id) ops →
  sessions (exec_all ops
              (exec (Create client_ip filename filetype session_id created accessed)
                    self)) !! session_id = Some session →
  session !! "client_ip" = Some (VStr client_ip).
Proof.
  intros Hops Hl.
  destruct (exec_all_keeps_owner _ _ _ _ Hops Hl) as (s0 & Hs0 & ->).
  cbn in Hs0. rewrite lookup_insert_eq in Hs0. injection Hs0 as <-.
  rewrite lookup_insert_ne by done. by rewrite lookup_insert_eq.
Qed.

Lemma owner_fixed_at_creation_witness :
  Forall (λ o, creates o ≠ Some "tokA") Demo.alice_traffic
  ∧ ∃ session,
      sessions (exec_all Demo.alice_traffic
                  (exec (Create Demo.alice "a.csv" "CSV" "tokA" 0 0) init))
        !! "tokA" = Some session
      ∧ session !! "client_ip" = Some (VStr Demo.alice).
Proof.
  assert (Forall (λ o, creates o ≠ Some "tokA") Demo.alice_traffic) as Hops
    by (unfold Demo.alice_traffic; repeat constructor; discriminate).
  split; [exact Hops|].
  destruct (sessions (exec_all Demo.alice_traffic
                        (exec (Create Demo.alice "a.csv" "CSV" "tokA" 0 0) init))
              !! "tokA") as [session|] eqn:Hs.
  - exists session. split; [reflexivity|].
    exact (owner_fixed_at_creation _ _ _ _ _ _ _ _ _ Hops Hs).
  - vm_compute in Hs. discriminate Hs.
Defined.

(** *** The sweep *)







(** A creation time that is no datetime stops the sweep in its second loop:
    the session has been dropped by then, the exception leaves the method,
    and the sessions collected after it would stay. *)
Lemma sweep_stops_at_overwritten_creation_time :
  store_inv Demo.creation_overwritten
  ∧ timestamps_dated Demo.creation_overwritten
  ∧ cleanup_expired_sessions 3600 3601000000 Demo.creation_overwritten
    = (Raise (TypeError "unsupported operand type(s) for -"), Demo.sweep_stopped)
  ∧ sessions Demo.sweep_stopped !! "tokA" = None.
Proof.
  assert (reachable Demo.creation_overwritten) as Hreach
    by (apply reachable_exec; [exact two_clients_reachable|exact I]).
  split; [exact (reachable_store_inv _ Hreach)|]. split.
  - apply timestamps_dated_exec; [exact two_clients_dated|].
    cbn. intros Hin. apply list_elem_of_singleton in Hin. discriminate Hin.
  - split; vm_compute; reflexivity.
Qed.

End SessionFacts.

(** * Properties of the ingestion pipeline *)

Section ingestion_facts.
Context `{Externals}.

Ltac run := unfold try_except, bind, ret, raise, read_csv, read_excel, detect, external.

(** *** Which calls a computation makes *)








(** *** Encoding resolution *)

(** C7 — an explicitly supplied encoding is the only one tried: the input
    is read once, under that encoding; on success the encoding is reported
    back unchanged, on failure a [FileReadError] is raised at once, with
    neither detection nor the fallback list consulted. *)
Theorem explicit_encoding_verbatim contents encoding log :
  encoding ≠ "" →
  _parse_csv_with_encoding contents (Some encoding) log
  = (match pd_read_csv contents (Some encoding) None None with
     | Return df => Return (df, Some encoding)
     | Raise e =>
         Raise (FileReadError "CSV" "CSV"
                  ("Failed to parse with specified encoding '" +:+ encoding
                     +:+ "': " +:+ exc_str e))
     end,
     log ++ [ReadCsv contents (Some encoding) None None]).
Proof.
  intros Hne. unfold _parse_csv_with_encoding.
  destruct encoding as [|a s]; [done|]. cbn [truthy_str]. run.
  by destruct (pd_read_csv _ _ _ _).
Qed.

Lemma try_detected_fails contents log :
  detected_parse_fails contents →
  try_detected contents log = (Return None, log ++ detection_calls contents).
Proof.
  intros Hfail. unfold try_detected, detection_calls. run.
  destruct (chardet_detect contents) as [detected|e] eqn:Hd; [|done].
  destruct (PrimFloat.ltb _ _) eqn:Hc; [|done].
  destruct (Hfail _ Hd Hc) as [e ->]. by rewrite <-app_assoc.
Qed.

Lemma try_encodings_fail contents encodings log :
  (∀ enc, enc ∈ encodings → ∃ e, pd_read_csv contents (Some enc) None None = Raise e) →
  try_encodings contents encodings log
  = (Return None, log ++ ((λ enc, ReadCsv contents (Some enc) None None) <$> encodings)).
Proof.
  revert log. induction encodings as [|enc encodings IH]; intros log Hfail.
  - cbn. by rewrite app_nil_r.
  - cbn [try_encodings]. run.
    destruct (Hfail enc) as [e ->]; [by apply elem_of_cons; left|].
    rewrite IH by (intros; apply Hfail; by apply elem_of_cons; right).
    by rewrite fmap_cons, <-app_assoc.
Qed.

(** Without an explicit encoding, once the detected encoding (if it was
    trusted) and the five fallbacks have all failed, exactly one more call
    of [pd.read_csv] is made, with [encoding='utf-8'] and [errors='replace'];
    the function returns what that call returns and fails if it raises. *)
Lemma last_resort_run contents encoding log :
  truthy_str encoding = false →
  detected_parse_fails contents →
  (∀ enc, enc ∈ common_encodings →
          ∃ e, pd_read_csv contents (Some enc) None None = Raise e) →
  _parse_csv_with_encoding contents encoding log
  = (match pd_read_csv contents (Some "utf-8") None (Some "replace") with
     | Return df => Return (df, Some "utf-8")
     | Raise e =>
         Raise (FileReadError "CSV" "CSV"
                  ("Failed to parse CSV with any encoding. Last error: "
                     +:+ exc_str e))
     end,
     log ++ detection_calls contents
         ++ ((λ enc, ReadCsv contents (Some enc) None None) <$> common_encodings)
         ++ [ReadCsv contents (Some "utf-8") None (Some "replace")]).
Proof.
  intros Hnone Hdet Hall. unfold _parse_csv_with_encoding. rewrite Hnone.
  unfold bind at 1. rewrite try_detected_fails by done.
  unfold bind at 1. rewrite try_encodings_fail by done.
  run. rewrite <-!app_assoc.
  by destruct (pd_read_csv _ _ _ (Some "replace")).
Qed.

(** [pd.read_csv] refuses the [errors] keyword, so the last resort decodes
    nothing: whenever it is reached the function raises, whatever the
    bytes, and the error it reports is the refused keyword. *)
Lemma last_resort_never_parses contents encoding log :
  rejects_errors_keyword →
  truthy_str encoding = false →
  detected_parse_fails contents →
  (∀ enc, enc ∈ common_encodings →
          ∃ e, pd_read_csv contents (Some enc) None None = Raise e) →
  _parse_csv_with_encoding contents encoding log
  = (Raise (FileReadError "CSV" "CSV"
              ("Failed to parse CSV with any encoding. Last error: "
                 +:+ exc_str (TypeError
                                "read_csv() got an unexpected keyword argument 'errors'"))),
     log ++ detection_calls contents
         ++ ((λ enc, ReadCsv contents (Some enc) None None) <$> common_encodings)
         ++ [ReadCsv contents (Some "utf-8") None (Some "replace")]).
Proof.
  intros Hkeyword Hnone Hdet Hall.
  rewrite last_resort_run by done. by rewrite Hkeyword.
Qed.

(** *** Full, chunked and sampled parsing *)

Lemma resolve_encoding_run contents encoding log :
  (if negb (truthy_str encoding) then detect_file_encoding contents
   else ret encoding) log
  = (Return (resolved_encoding contents encoding),
     log ++ if truthy_str encoding then [] else [Detect contents]).
Proof.
  unfold resolved_encoding, detect_file_encoding.
  destruct (truthy_str encoding); run; cbn [negb].
  - by rewrite app_nil_r.
  - by destruct (chardet_detect contents).
Qed.



(** The loop keeps at most 101 chunks: it stops after appending the 101st. *)
Lemma read_chunks_bound yielded failure chunks result :
  (length chunks ≤ 100)%nat →
  read_chunks yielded failure chunks = Return result →
  (length result ≤ 101)%nat.
Proof.
  revert chunks. induction yielded as [|chunk yielded IH]; intros chunks Hle;
    cbn [read_chunks].
  - destruct failure; [done|]. intros [= ->]. lia.
  - destruct (Nat.ltb_spec 100 (length (chunks ++ [chunk]))) as [Hfull|Hroom].
    + intros [= <-]. rewrite length_app in *. cbn [length] in *. lia.
    + intros Hrun. by apply IH in Hrun.
Qed.

Lemma read_chunks_overflow yielded failure chunks :
  (length chunks ≤ 100)%nat →
  (100 < length chunks + length yielded)%nat →
  read_chunks yielded failure chunks
  = Return (chunks ++ take (101 - length chunks) yielded).
Proof.
  revert chunks. induction yielded as [|chunk yielded IH]; intros chunks Hle Hgt.
  - cbn in Hgt. lia.
  - cbn [read_chunks].
    destruct (Nat.ltb_spec 100 (length (chunks ++ [chunk]))) as [Hfull|Hroom];
      rewrite length_app in *; cbn [length] in *.
    + replace (101 - length chunks)%nat with 1%nat by lia. done.
    + rewrite IH; [|rewrite length_app; cbn [length]; lia..].
      rewrite length_app. cbn [length]. rewrite <-app_assoc. cbn [app].
      destruct (101 - length chunks)%nat as [|n] eqn:Hn; [lia|].
      by replace (101 - (length chunks + 1))%nat with n by lia.
Qed.





(** With a sample size other than 0 the input is read once, with [nrows]
    set to it; no estimate is taken and no chunk reader opened. *)
Lemma sampling_short_circuits contents chunk_size n encoding log :
  n ≠ 0%Z →
  _parse_large_csv contents chunk_size (Some n) encoding log
  = (match pd_read_csv contents (resolved_encoding contents encoding) (Some n) None with
     | Return df =>
         Return (df, "CSV",
                 <["encoding" := opt_value (resolved_encoding contents encoding)]>
                 (<["total_rows" := VInt (df_len df)]>
                 (<["is_sampled" := VBool true]>
                 (<["sample_size" := VInt n]> ∅))))
     | Raise e =>
         Raise (FileReadError "CSV" "CSV" ("Failed to sample CSV: " +:+ exc_str e))
     end,
     log ++ (if truthy_str encoding then [] else [Detect contents])
         ++ [ReadCsv contents (resolved_encoding contents encoding) (Some n) None]).
Proof.
  intros Hn. unfold _parse_large_csv.
  unfold bind at 1. rewrite resolve_encoding_run.
  assert (truthy_int (Some n) = true) as ->.
  { cbn. by destruct (Z.eqb_spec n 0). }
  run. rewrite <-app_assoc. by destruct (pd_read_csv _ _ _ _).
Qed.

End ingestion_facts.

(** * The properties at work on the stand-in libraries *)

Module Examples.
Import Toy.

Lemma explicit_encoding_verbatim_witness :
  "latin-1" ≠ ""
  ∧ _parse_csv_with_encoding (text ["a,b"; "1,2"]) (Some "latin-1") []
    = (Return (mkDataFrame ["a"; "b"] [["1"; "2"]], Some "latin-1"),
       [ReadCsv (text ["a,b"; "1,2"]) (Some "latin-1") None None]).
Proof.
  split; [discriminate|].
  rewrite (explicit_encoding_verbatim (text ["a,b"; "1,2"]) "latin-1" []);
    [reflexivity|discriminate].
Defined.

(** C5 — the last resort of [_parse_csv_with_encoding] is no lossy parse:
    [pd.read_csv] is called with a keyword it does not have and raises
    [TypeError] before it reads a byte.  On a table with a ragged third
    line the trusted detection and the five fallbacks fail, the last call
    is made with [errors='replace'], and the function fails with the
    refused keyword as its last error; the stand-in refuses the keyword on
    every input, as pandas does. *)
Theorem lossy_attempt_never_decodes :
  rejects_errors_keyword
  ∧ _parse_csv_with_encoding Inputs.ragged None []
    = (Raise (FileReadError "CSV" "CSV"
                ("Failed to parse CSV with any encoding. Last error: "
                   +:+ "read_csv() got an unexpected keyword argument 'errors'")),
       [Detect Inputs.ragged;
        ReadCsv Inputs.ragged (Some "ascii") None None;
        ReadCsv Inputs.ragged (Some "utf-8") None None;
        ReadCsv Inputs.ragged (Some "latin-1") None None;
        ReadCsv Inputs.ragged (Some "iso-8859-1") None None;
        ReadCsv Inputs.ragged (Some "cp1252") None None;
        ReadCsv Inputs.ragged (Some "utf-16") None None;
        ReadCsv Inputs.ragged (Some "utf-8") None (Some "replace")]).
Proof.
  assert (rejects_errors_keyword) as Hkeyword by (intros ? ? ? ?; reflexivity).
  split; [exact Hkeyword|].
  assert (detected_parse_fails Inputs.ragged) as Hdet.
  { intros detected Hd _. injection Hd as <-.
    exists (LibraryError "Error tokenizing data"). vm_compute. reflexivity. }
  assert (∀ enc, enc ∈ common_encodings →
                 ∃ e, pd_read_csv Inputs.ragged (Some enc) None None = Raise e) as Hall.
  { intros enc _. exists (LibraryError "Error tokenizing data").
    vm_compute. reflexivity. }
  rewrite (last_resort_never_parses Inputs.ragged None [] Hkeyword eq_refl Hdet Hall).
  vm_compute. reflexivity.
Qed.


(** A five-row, three-column upload is parsed whole. *)
Lemma small_input_is_parsed_whole :
  ∃ df metadata calls,
    parse_large_file "small.csv"
      (text ["a,b,c"; "1,2,3"; "4,5,6"; "7,8,9"; "1,1,1"; "2,2,2"]) 10000 None None []
    = (Return (df, "CSV", metadata), calls)
    ∧ df_shape df = (5, 3)%Z
    ∧ metadata !! "is_chunked" = Some (VBool false)
    ∧ metadata !! "is_sampled" = Some (VBool false)
    ∧ Forall (λ c, is_chunked_read c = false) calls.
Proof.
  set (run := parse_large_file "small.csv"
                (text ["a,b,c"; "1,2,3"; "4,5,6"; "7,8,9"; "1,1,1"; "2,2,2"])
                10000 None None []).
  exists (match run.1 with Return (df, _, _) => df | Raise _ => mkDataFrame [] [] end),
         (match run.1 with Return (_, _, metadata) => metadata | Raise _ => ∅ end),
         run.2.
  repeat split; try (vm_compute; reflexivity).
  vm_compute. by repeat constructor.
Qed.

(** C3 — a header ["Unnamed: 0"] passes: [validate_dataframe] looks for the
    lower-case prefix ["unnamed"], which the placeholder pandas writes
    (capital U) does not have, so the ingestion succeeds where the
    specification wants a validation failure. *)
Theorem unnamed_header_is_accepted :
  (parse_file_contents "data.csv" (text ["Unnamed: 0,a"; "0,1"]) None []).1
  = Return (mkDataFrame ["Unnamed: 0"; "a"] [["0"; "1"]], "CSV")
  ∧ (parse_file_contents "data.csv" (text [",a"; "0,1"]) None []).1
    = Return (mkDataFrame ["Unnamed: 0"; "a"] [["0"; "1"]], "CSV")
  ∧ validate_dataframe (mkDataFrame ["Unnamed: 0"; "a"] [["0"; "1"]])
      1 1000000 1 500 = Return ()
  ∧ (parse_file_contents "data.csv" (text ["unnamed,a"; "0,1"]) None []).1
    = Raise (DataFrameValidationError
               "File Appears to have missing or invalid headers."
               1 2 1 1000000 1 500).
Proof. repeat split; vm_compute; reflexivity. Qed.

(** C4 — the loop of [_read_csv_in_chunks] leaves after the 101st chunk, not
    the 100th: 150 rows read in chunks of one row come back as 101 rows,
    one more than the ceiling of [100 * chunk_size]; nothing is raised. *)
Theorem chunk_cap_keeps_101_chunks :
  ∃ df calls,
    _read_csv_in_chunks (text ("a" :: replicate 150 "1")) 1 (Some "utf-8") []
    = (Return df, calls)
    ∧ length (rows df) = 101%nat
    ∧ (100 * 1 < Z.of_nat (length (rows df)))%Z.
Proof.
  destruct (_read_csv_in_chunks (text ("a" :: replicate 150 "1")) 1 (Some "utf-8") [])
    as [[df|e] calls] eqn:Hrun; [|vm_compute in Hrun; discriminate Hrun].
  exists df, calls. split; [reflexivity|].
  assert (length (rows df) = 101%nat) as Hlen.
  { vm_compute in Hrun. injection Hrun as <- _. reflexivity. }
  split; [exact Hlen|]. rewrite Hlen. reflexivity.
Qed.

(** C9 — [sample_rows = 0] is reported as a sample but is not one: the
    metadata say [is_sampled = True], yet the row estimate is taken, the
    whole input is parsed, and no [sample_size] is recorded. *)
Theorem sample_rows_zero_reads_everything :
  ∃ df metadata calls,
    parse_large_file "data.csv" (text ["a"; "1"; "2"; "3"]) 10000 (Some 0%Z)
      (Some "utf-8") []
    = (Return (df, "CSV", metadata), calls)
    ∧ rows df = [["1"]; ["2"]; ["3"]]
    ∧ metadata !! "is_sampled" = Some (VBool true)
    ∧ metadata !! "sample_size" = None
    ∧ metadata !! "is_chunked" = Some (VBool false)
    ∧ Exists (λ c, is_estimate c = true) calls
    ∧ Forall (λ c, match c with
                   | ReadCsv _ _ (Some _) _ => False
                   | _ => True
                   end) calls.
Proof.
  set (run := parse_large_file "data.csv" (text ["a"; "1"; "2"; "3"]) 10000 (Some 0%Z)
                (Some "utf-8") []).
  exists (match run.1 with
          | Return (df, _, _) => df
          | Raise _ => mkDataFrame [] []
          end),
         (match run.1 with
          | Return (_, _, metadata) => metadata
          | Raise _ => ∅
          end),
         run.2.
  split; [vm_compute; reflexivity|]. split; [vm_compute; reflexivity|].
  split; [vm_compute; reflexivity|]. split; [vm_compute; reflexivity|].
  split; [vm_compute; reflexivity|]. split.
  - vm_compute. apply Exists_cons_hd. reflexivity.
  - vm_compute. by repeat constructor.
Qed.

End Examples.
